(** * The toaster state machine of [Source/Toaster.ts]

    A shallow embedding of the TypeScript namespace [Appliances]: the
    class [Toaster] (the context object), the abstract class
    [ToasterState] with its four subclasses, and the script that follows
    the namespace.  Objects live in a heap, because the program creates
    its states with [new] and the context object holds a reference to
    the current one; [console.log] appends to a list. *)

From stdpp Require Import base option list strings relations.

(** ** Values, objects and the world *)

(** A reference is the index of an object in the heap. *)
Abbreviation loc := nat (only parsing).

(** The classes whose instances a [ToasterState] reference can denote:
    the abstract base class and its four subclasses. *)
Inductive ClassName :=
  | ToasterState
  | IdleState
  | BreadInsertedState
  | ToastingState
  | BreadEjectedState.

(** The members of [interface ToasterOperations]. *)
Inductive Operation :=
  | insertBread
  | pullLever
  | ejectBread
  | removeBread.

#[global] Instance ClassName_eq_dec : EqDecision ClassName.
Proof. solve_decision. Defined.

#[global] Instance Operation_eq_dec : EqDecision Operation.
Proof. solve_decision. Defined.

(** The JavaScript values the program handles. *)
Inductive Value :=
  | undefined
  | Str (s : string)
  | Ref (l : loc).

#[global] Instance Value_eq_dec : EqDecision Value.
Proof. solve_decision. Defined.

(** The own fields of a [Toaster] instance: [private _state]. *)
Record Toaster := { _state : Value }.

(** What the code passes to [new Error(msg)].  The [stack] text that a
    JavaScript engine adds to the object is written by the engine, not by
    this program, and is not part of the model; nothing below says what
    an error does or does not reveal beyond its message. *)
Record Error := { message : string }.

(** A heap object: an instance of a state class (the state classes
    declare no fields), a [Toaster], or an [Error]. *)
Inductive Obj :=
  | StateObj (c : ClassName)
  | ToasterObj (t : Toaster)
  | ErrorObj (e : Error).

(** The heap and what has been passed to [console.log], oldest first. *)
Record World := { heap : list Obj; console : list Value }.

(** How a statement or call completes.  [Wrong] stands for the run-time
    type errors that TypeScript's checker excludes (a method called on a
    value that has none, a reference to no object); the well-formedness
    results below show the program never reaches it. *)
Inductive Completion (A : Type) :=
  | Normal (a : A)
  | Throw (v : Value)
  | Wrong.

Arguments Normal {A} a.
Arguments Throw {A} v.
Arguments Wrong {A}.

(** ** The monad of JavaScript computations

    A thrown exception keeps the world it was thrown in: what the code
    did before the [throw] stays done. *)
Record JS (A : Type) := Js { run : World → Completion A * World }.

Arguments Js {A} _.
Arguments run {A} _ _.

#[global] Instance JS_ret : MRet JS :=
  λ A a, Js (λ w, (Normal a, w)).

#[global] Instance JS_bind : MBind JS :=
  λ A B k c, Js (λ w,
    match run c w with
    | (Normal a, w') => run (k a) w'
    | (Throw v, w') => (Throw v, w')
    | (Wrong, w') => (Wrong, w')
    end).

Definition throw {A} (v : Value) : JS A := Js (λ w, (Throw v, w)).

Definition wrong {A} : JS A := Js (λ w, (Wrong, w)).

(** [new]: the object gets the next free reference. *)
Definition alloc (o : Obj) : JS loc :=
  Js (λ w, (Normal (length (heap w)),
            {| heap := heap w ++ [o]; console := console w |})).

Definition deref (l : loc) : JS Obj :=
  Js (λ w, match heap w !! l with
           | Some o => (Normal o, w)
           | None => (Wrong, w)
           end).

Definition store (l : loc) (o : Obj) : JS unit :=
  Js (λ w, (Normal (), {| heap := <[l := o]> (heap w); console := console w |})).

(** [console.log(v)] *)
Definition console_log (v : Value) : JS unit :=
  Js (λ w, (Normal (), {| heap := heap w; console := console w ++ [v] |})).

(** [this._state] read: an object without that property yields
    [undefined]. *)
Definition get__state (this : loc) : JS Value :=
  o ← deref this;
  match o with
  | ToasterObj t => mret (_state t)
  | _ => mret undefined
  end.

(** [this._state = v] *)
Definition set__state (this : loc) (v : Value) : JS unit :=
  o ← deref this;
  match o with
  | ToasterObj _ => store this (ToasterObj {| _state := v |})
  | _ => wrong
  end.

(** [new C()] for a state class [C]; the state classes have no
    constructor of their own. *)
Definition new_state (c : ClassName) : JS Value :=
  l ← alloc (StateObj c); mret (Ref l).

(** [new Error(msg)] *)
Definition new_Error (msg : string) : JS Value :=
  l ← alloc (ErrorObj {| message := msg |}); mret (Ref l).

(** ** The state classes *)

(** [abstract class ToasterState]: every operation throws. *)
Definition ToasterState_insertBread (this : loc) : JS Value :=
  e ← new_Error "Invalid operation"; throw e.

Definition ToasterState_pullLever (this : loc) : JS Value :=
  e ← new_Error "Invalid operation"; throw e.

Definition ToasterState_ejectBread (this : loc) : JS Value :=
  e ← new_Error "Invalid operation"; throw e.

Definition ToasterState_removeBread (this : loc) : JS Value :=
  e ← new_Error "Invalid operation"; throw e.

(** [class IdleState extends ToasterState] *)
Definition IdleState_insertBread (this : loc) : JS Value :=
  new_state BreadInsertedState.

(** [class BreadInsertedState extends ToasterState] *)
Definition BreadInsertedState_pullLever (this : loc) : JS Value :=
  new_state ToastingState.

(** [class ToastingState extends ToasterState] *)
Definition ToastingState_ejectBread (this : loc) : JS Value :=
  new_state BreadEjectedState.

(** [class BreadEjectedState extends ToasterState] *)
Definition BreadEjectedState_removeBread (this : loc) : JS Value :=
  new_state IdleState.

(** The methods a class declares itself. *)
Definition own_method (c : ClassName) (m : Operation)
  : option (loc → JS Value) :=
  match c, m with
  | ToasterState, insertBread => Some ToasterState_insertBread
  | ToasterState, pullLever => Some ToasterState_pullLever
  | ToasterState, ejectBread => Some ToasterState_ejectBread
  | ToasterState, removeBread => Some ToasterState_removeBread
  | IdleState, insertBread => Some IdleState_insertBread
  | BreadInsertedState, pullLever => Some BreadInsertedState_pullLever
  | ToastingState, ejectBread => Some ToastingState_ejectBread
  | BreadEjectedState, removeBread => Some BreadEjectedState_removeBread
  | _, _ => None
  end.

(** The [extends] clauses. *)
Definition superclass (c : ClassName) : option ClassName :=
  match c with
  | ToasterState => None
  | _ => Some ToasterState
  end.

(** Method lookup: the class's own method, else the one of the class it
    extends (the hierarchy is one level deep). *)
Definition resolve (c : ClassName) (m : Operation)
  : option (loc → JS Value) :=
  match own_method c m with
  | Some body => Some body
  | None => p ← superclass c; own_method p m
  end.

(** The method call [v.m()]. *)
Definition invoke (v : Value) (m : Operation) : JS Value :=
  match v with
  | Ref l =>
      o ← deref l;
      match o with
      | StateObj c =>
          match resolve c m with
          | Some body => body l
          | None => wrong
          end
      | _ => wrong
      end
  | _ => wrong
  end.

(** ** The class [Toaster] *)

Definition Toaster_logCurrentState (this : loc) : JS unit :=
  s ← get__state this; console_log s.

Definition Toaster_insertBread (this : loc) : JS unit :=
  s ← get__state this;
  s' ← invoke s insertBread;
  set__state this s';;
  Toaster_logCurrentState this.

Definition Toaster_pullLever (this : loc) : JS unit :=
  s ← get__state this;
  s' ← invoke s pullLever;
  set__state this s';;
  Toaster_logCurrentState this.

Definition Toaster_ejectBread (this : loc) : JS unit :=
  s ← get__state this;
  s' ← invoke s ejectBread;
  set__state this s';;
  Toaster_logCurrentState this.

Definition Toaster_removeBread (this : loc) : JS unit :=
  s ← get__state this;
  s' ← invoke s removeBread;
  set__state this s';;
  Toaster_logCurrentState this.

(** [new Appliances.Toaster()]: the object is created, the field
    initialiser [_state = new IdleState()] runs, then the constructor
    body. *)
Definition new_Toaster : JS loc :=
  this ← alloc (ToasterObj {| _state := undefined |});
  s ← new_state IdleState;
  set__state this s;;
  Toaster_logCurrentState this;;
  mret this.

(** The public operation [O] called on the toaster [this]. *)
Definition Toaster_call (O : Operation) (this : loc) : JS unit :=
  match O with
  | insertBread => Toaster_insertBread this
  | pullLever => Toaster_pullLever this
  | ejectBread => Toaster_ejectBread this
  | removeBread => Toaster_removeBread this
  end.

(** ** The script after the namespace *)

Definition script : JS unit :=
  console_log (Str "testing allowed transitions");;
  toaster ← new_Toaster;
  Toaster_insertBread toaster;;
  Toaster_pullLever toaster;;
  Toaster_ejectBread toaster;;
  Toaster_removeBread toaster;;
  console_log (Str "testing disallowed transitions");;
  toaster2 ← new_Toaster;
  Toaster_pullLever toaster2.

Definition empty_world : World := {| heap := []; console := [] |}.

(** ** Reading a world *)

(** The class of the state object a value refers to. *)
Definition class_of (w : World) (v : Value) : option ClassName :=
  match v with
  | Ref l =>
      match heap w !! l with
      | Some (StateObj c) => Some c
      | _ => None
      end
  | _ => None
  end.

(** The current state of the toaster at [d]: the class of the object
    its [_state] field refers to. *)
Definition current_state (w : World) (d : loc) : option ClassName :=
  match heap w !! d with
  | Some (ToasterObj t) => class_of w (_state t)
  | _ => None
  end.

(** The four classes that can be instantiated. *)
Definition concrete (c : ClassName) : bool :=
  match c with
  | ToasterState => false
  | _ => true
  end.

(** The transition table as the specification gives it (its section 3):
    the defined edges, every other pair being not permitted. *)
Definition transition_table (S : ClassName) (O : Operation)
  : option ClassName :=
  match S, O with
  | IdleState, insertBread => Some BreadInsertedState
  | BreadInsertedState, pullLever => Some ToastingState
  | ToastingState, ejectBread => Some BreadEjectedState
  | BreadEjectedState, removeBread => Some IdleState
  | _, _ => None
  end.

(** The error every refused operation raises. *)
Definition invalid_operation : Obj :=
  ErrorObj {| message := "Invalid operation" |}.

(** ** The worlds calls and construction leave behind *)

(** A toaster at [d] whose [_state] refers to a state object of class
    [S] at [s]. *)
Definition toaster_at (w : World) (d s : loc) (S : ClassName) : Prop :=
  heap w !! d = Some (ToasterObj {| _state := Ref s |}) ∧
  heap w !! s = Some (StateObj S).

(** A world with one toaster, at reference 0, in state [S]. *)
Definition toaster_in (S : ClassName) : World :=
  {| heap := [ToasterObj {| _state := Ref 1 |}; StateObj S]; console := [] |}.

(** The [_state] field of the toaster at [d] holds a reference to an
    instance of one of the four concrete classes. *)
Definition holds_concrete_state (w : World) (d : loc) : bool :=
  match current_state w d with
  | Some c => concrete c
  | None => false
  end.

(** The world after a permitted call. *)
Definition committed (w : World) (d : loc) (T : ClassName) : World :=
  {| heap := <[d := ToasterObj {| _state := Ref (length (heap w)) |}]>
               (heap w ++ [StateObj T]);
     console := console w ++ [Ref (length (heap w))] |}.

(** The world after a refused call. *)
Definition refused (w : World) : World :=
  {| heap := heap w ++ [invalid_operation]; console := console w |}.

(** The world after [new Appliances.Toaster()]. *)
Definition constructed (w : World) : World :=
  {| heap := heap w ++ [ToasterObj {| _state := Ref (S (length (heap w))) |};
                        StateObj IdleState];
     console := console w ++ [Ref (S (length (heap w)))] |}.

(** [w'] keeps every object of [w] other than the one at [d]. *)
Definition keeps_others (d : loc) (w w' : World) : Prop :=
  length (heap w) ≤ length (heap w') ∧
  ∀ l, l < length (heap w) → l ≠ d → heap w' !! l = heap w !! l.

(** ** The callers' sequences and the machine's edges *)

(** The four calls of the script's first part, in their order. *)
Definition full_cycle (d : loc) : JS unit :=
  Toaster_insertBread d;;
  Toaster_pullLever d;;
  Toaster_ejectBread d;;
  Toaster_removeBread d.

(** The full cycle, [N] times over. *)
Fixpoint cycles (N : nat) (d : loc) : JS unit :=
  match N with
  | 0 => mret ()
  | S n => full_cycle d;; cycles n d
  end.

(** A caller that goes on after a refused call: the world after calling
    the operations [ops] on [d] one after the other, whatever each call's
    outcome. *)
Definition drive (ops : list Operation) (d : loc) (w : World) : World :=
  foldl (λ w O, (run (Toaster_call O d) w).2) w ops.

(** The successful transitions the code allows between classes. *)
Definition transition (S T : ClassName) : Prop :=
  ∃ (w : World) (d : loc) (O : Operation) (w' : World),
    current_state w d = Some S ∧
    run (Toaster_call O d) w = (Normal (), w') ∧
    current_state w' d = Some T.

(** The edges of the cycle Idle → BreadInserted → Toasting →
    BreadEjected → Idle. *)
Definition cycle_edges : list (ClassName * ClassName) :=
  [ (IdleState, BreadInsertedState);
    (BreadInsertedState, ToastingState);
    (ToastingState, BreadEjectedState);
    (BreadEjectedState, IdleState) ].

(** The state classes logged by [N] full cycles. *)
Fixpoint cycle_log (N : nat) : list ClassName :=
  match N with
  | 0 => []
  | S n => [BreadInsertedState; ToastingState; BreadEjectedState; IdleState]
           ++ cycle_log n
  end.

(** ** Series of calls, read as a path on the edges *)

(** The state a call leaves a toaster in: the class the overriding
    method instantiates, or the same state when the inherited method
    throws. *)
Definition step_state (S : ClassName) (O : Operation) : ClassName :=
  default S (transition_table S O).

(** The states entered, in order, by those calls of [ops] that are not
    refused, starting in state [S]. *)
Fixpoint visited (S : ClassName) (ops : list Operation) : list ClassName :=
  match ops with
  | [] => []
  | op :: ops =>
      match transition_table S op with
      | Some T => T :: visited T ops
      | None => visited S ops
      end
  end.

(** A world with two toasters, at references 0 and 2, in the states
    [S1] and [S2]. *)
Definition toasters_in (S1 S2 : ClassName) : World :=
  {| heap := [ToasterObj {| _state := Ref 1 |}; StateObj S1;
              ToasterObj {| _state := Ref 3 |}; StateObj S2];
     console := [] |}.

(** The place of a state on the cycle, counted from Idle. *)
Definition position (c : ClassName) : nat :=
  match c with
  | ToasterState => 0
  | IdleState => 0
  | BreadInsertedState => 1
  | ToastingState => 2
  | BreadEjectedState => 3
  end.

(** ** How the primitive steps run *)

Lemma run_bind {A B} (c : JS A) (k : A → JS B) (w : World) :
  run (c ≫= k) w =
  match run c w with
  | (Normal a, w') => run (k a) w'
  | (Throw v, w') => (Throw v, w')
  | (Wrong, w') => (Wrong, w')
  end.
Proof. reflexivity. Qed.

Lemma run_deref (l : loc) (o : Obj) (w : World) :
  heap w !! l = Some o → run (deref l) w = (Normal o, w).
Proof. intros H. unfold deref. cbn [run]. now rewrite H. Qed.

Lemma run_get__state (d : loc) (t : Toaster) (w : World) :
  heap w !! d = Some (ToasterObj t) →
  run (get__state d) w = (Normal (_state t), w).
Proof.
  intros H. unfold get__state. rewrite run_bind, (run_deref _ _ _ H).
  reflexivity.
Qed.

Lemma run_set__state (d : loc) (t : Toaster) (v : Value) (w : World) :
  heap w !! d = Some (ToasterObj t) →
  run (set__state d v) w =
  (Normal (), {| heap := <[d := ToasterObj {| _state := v |}]> (heap w);
                 console := console w |}).
Proof.
  intros H. unfold set__state. rewrite run_bind, (run_deref _ _ _ H).
  reflexivity.
Qed.

Lemma run_logCurrentState (d : loc) (t : Toaster) (w : World) :
  heap w !! d = Some (ToasterObj t) →
  run (Toaster_logCurrentState d) w =
  (Normal (), {| heap := heap w; console := console w ++ [_state t] |}).
Proof.
  intros H. unfold Toaster_logCurrentState.
  rewrite run_bind, (run_get__state _ _ _ H). reflexivity.
Qed.

(** A state method with an edge in the table allocates the target state
    and returns the reference to it. *)
Lemma run_invoke_edge (s : loc) (S T : ClassName) (O : Operation) (w : World) :
  heap w !! s = Some (StateObj S) →
  transition_table S O = Some T →
  run (invoke (Ref s) O) w =
  (Normal (Ref (length (heap w))),
   {| heap := heap w ++ [StateObj T]; console := console w |}).
Proof.
  intros H HT. unfold invoke. rewrite run_bind, (run_deref _ _ _ H).
  destruct S, O; simplify_eq/=; reflexivity.
Qed.

(** A state method without an edge allocates the error and throws it. *)
Lemma run_invoke_no_edge (s : loc) (S : ClassName) (O : Operation) (w : World) :
  heap w !! s = Some (StateObj S) →
  transition_table S O = None →
  run (invoke (Ref s) O) w =
  (Throw (Ref (length (heap w))),
   {| heap := heap w ++ [invalid_operation]; console := console w |}).
Proof.
  intros H HT. unfold invoke. rewrite run_bind, (run_deref _ _ _ H).
  destruct S, O; simplify_eq/=; reflexivity.
Qed.

(** The four public methods have one shape. *)
Lemma Toaster_call_unfold (O : Operation) (this : loc) :
  Toaster_call O this =
  (s ← get__state this;
   s' ← invoke s O;
   set__state this s';;
   Toaster_logCurrentState this).
Proof. destruct O; reflexivity. Qed.

Lemma current_state_toaster_at (w : World) (d : loc) (S : ClassName) :
  current_state w d = Some S ↔ ∃ s, toaster_at w d s S.
Proof.
  unfold current_state, toaster_at, class_of. split.
  - destruct (heap w !! d) as [[c|[[| |s]]|e]|] eqn:Hd; try discriminate.
    cbn [_state]. destruct (heap w !! s) as [[c| |]|] eqn:Hs; try discriminate.
    intros [= ->]. eauto.
  - intros (s & -> & Hs). cbn [_state]. now rewrite Hs.
Qed.

(** ** The worlds a call leaves behind *)

Lemma committed_lookup_self (w : World) (d : loc) (T : ClassName) :
  d < length (heap w) →
  heap (committed w d T) !! d
  = Some (ToasterObj {| _state := Ref (length (heap w)) |}).
Proof.
  intros Hd. cbn [committed heap]. apply list_lookup_insert_eq.
  rewrite length_app. lia.
Qed.

Lemma committed_lookup_new (w : World) (d : loc) (T : ClassName) :
  d < length (heap w) →
  heap (committed w d T) !! length (heap w) = Some (StateObj T).
Proof.
  intros Hd. cbn [committed heap].
  rewrite list_lookup_insert_ne by lia. now apply list_lookup_middle.
Qed.

Lemma committed_lookup_other (w : World) (d l : loc) (T : ClassName) :
  l ≠ d → l < length (heap w) →
  heap (committed w d T) !! l = heap w !! l.
Proof.
  intros Hne Hl. cbn [committed heap].
  rewrite list_lookup_insert_ne by auto. now apply lookup_app_l.
Qed.

Lemma committed_length (w : World) (d : loc) (T : ClassName) :
  length (heap (committed w d T)) = S (length (heap w)).
Proof.
  cbn [committed heap]. rewrite length_insert, length_app. cbn. lia.
Qed.

Lemma refused_lookup_old (w : World) (l : loc) :
  l < length (heap w) → heap (refused w) !! l = heap w !! l.
Proof. intros Hl. cbn [refused heap]. now apply lookup_app_l. Qed.

Lemma toaster_at_committed (w : World) (d : loc) (T : ClassName) :
  d < length (heap w) →
  toaster_at (committed w d T) d (length (heap w)) T.
Proof.
  intros Hd. split; [now apply committed_lookup_self|].
  now apply committed_lookup_new.
Qed.

Lemma current_state_committed (w : World) (d : loc) (T : ClassName) :
  d < length (heap w) → current_state (committed w d T) d = Some T.
Proof.
  intros Hd. apply current_state_toaster_at.
  eexists. now apply toaster_at_committed.
Qed.

Lemma keeps_others_refl (d : loc) (w : World) : keeps_others d w w.
Proof. split; auto. Qed.

Lemma keeps_others_trans (d : loc) (w1 w2 w3 : World) :
  keeps_others d w1 w2 → keeps_others d w2 w3 → keeps_others d w1 w3.
Proof.
  intros [L1 F1] [L2 F2]. split; [lia|].
  intros l Hl Hne. rewrite F2 by (auto; lia). auto.
Qed.

Lemma keeps_others_committed (d : loc) (w : World) (T : ClassName) :
  keeps_others d w (committed w d T).
Proof.
  split; [rewrite committed_length; lia|].
  intros l Hl Hne. now apply committed_lookup_other.
Qed.

(** ** One call on a toaster *)

Section OneToaster.

Context (w : World) (d s : loc) (S : ClassName).
Hypothesis Hat : toaster_at w d s S.

Lemma toaster_at_bounds :
  d < length (heap w) ∧ s < length (heap w) ∧ s ≠ d.
Proof.
  destruct Hat as [Hd Hs]. repeat split; [by eapply lookup_lt_Some..|].
  intros ->. congruence.
Qed.

(** A call with an edge in the table commits the target state. *)
Lemma run_call_edge (T : ClassName) (O : Operation) :
  transition_table S O = Some T →
  run (Toaster_call O d) w = (Normal (), committed w d T).
Proof.
  destruct Hat as [Hd Hs]. intros HT. rewrite Toaster_call_unfold.
  rewrite run_bind, (run_get__state _ _ _ Hd). cbn [_state].
  rewrite run_bind, (run_invoke_edge _ _ _ _ _ Hs HT).
  assert (Hd' : (heap w ++ [StateObj T]) !! d
                = Some (ToasterObj {| _state := Ref s |}))
    by now apply lookup_app_l_Some.
  rewrite run_bind.
  rewrite (run_set__state _ _ _ {| heap := _; console := _ |} Hd').
  set (t' := {| _state := Ref (length (heap w)) |}).
  assert (Hd'' : <[d := ToasterObj t']> (heap w ++ [StateObj T]) !! d
                 = Some (ToasterObj t')).
  { apply list_lookup_insert_eq. rewrite length_app.
    apply lookup_lt_Some in Hd. lia. }
  rewrite (run_logCurrentState _ _ {| heap := _; console := _ |} Hd'').
  reflexivity.
Qed.

(** A call without an edge throws before the field is assigned. *)
Lemma run_call_no_edge (O : Operation) :
  transition_table S O = None →
  run (Toaster_call O d) w = (Throw (Ref (length (heap w))), refused w).
Proof.
  destruct Hat as [Hd Hs]. intros HT. rewrite Toaster_call_unfold.
  rewrite run_bind, (run_get__state _ _ _ Hd). cbn [_state].
  rewrite run_bind, (run_invoke_no_edge _ _ _ _ Hs HT). reflexivity.
Qed.

(** A call on a toaster in state [S] runs as the table says. *)
Lemma run_call (O : Operation) :
  run (Toaster_call O d) w =
  match transition_table S O with
  | Some T => (Normal (), committed w d T)
  | None => (Throw (Ref (length (heap w))), refused w)
  end.
Proof.
  destruct (transition_table S O) as [T|] eqn:HT.
  - now apply run_call_edge.
  - now apply run_call_no_edge.
Qed.

Lemma toaster_at_refused : toaster_at (refused w) d s S.
Proof.
  destruct toaster_at_bounds as (Hd & Hs & _). destruct Hat as [H1 H2].
  split; rewrite refused_lookup_old by assumption; assumption.
Qed.

(** State objects are never written to: a reference keeps its class as
    long as the only object updated is a toaster. *)
Lemma class_of_kept (w' : World) (v : Value) (c : ClassName) :
  keeps_others d w w' →
  class_of w v = Some c → class_of w' v = Some c.
Proof.
  destruct Hat as [Hd _]. intros [_ F].
  destruct v as [| |l]; try discriminate.
  unfold class_of. destruct (heap w !! l) as [o|] eqn:Hl; [|discriminate].
  intros Hc.
  assert (Hne : l ≠ d).
  { intros ->. rewrite Hd in Hl. injection Hl as <-. discriminate. }
  rewrite F, Hl; [exact Hc|by eapply lookup_lt_Some|exact Hne].
Qed.

(** Another toaster is left as it was. *)
Lemma toaster_at_kept (w' : World) (d' s' : loc) (S' : ClassName) :
  d' ≠ d → keeps_others d w w' →
  toaster_at w d' s' S' → toaster_at w' d' s' S'.
Proof.
  destruct Hat as [Hd _]. intros Hne [_ F] [H1 H2]. split.
  - rewrite F; [exact H1|by eapply lookup_lt_Some|exact Hne].
  - rewrite F; [exact H2|by eapply lookup_lt_Some|].
    intros ->. congruence.
Qed.

End OneToaster.

Lemma current_state_refused (w : World) (d : loc) (S : ClassName) :
  current_state w d = Some S → current_state (refused w) d = Some S.
Proof.
  rewrite !current_state_toaster_at. intros [s H]. exists s.
  now apply toaster_at_refused.
Qed.

(** ** Construction *)

Lemma run_new_Toaster (w : World) :
  run new_Toaster w = (Normal (length (heap w)), constructed w).
Proof.
  unfold new_Toaster, new_state.
  set (t0 := {| _state := undefined |}).
  set (h1 := (heap w ++ [ToasterObj t0]) ++ [StateObj IdleState]).
  assert (H1 : h1 !! length (heap w) = Some (ToasterObj t0)).
  { unfold h1. rewrite <- app_assoc. now apply list_lookup_middle. }
  do 3 (rewrite run_bind; cbn [run alloc heap console mret JS_ret]).
  fold h1. rewrite run_bind.
  rewrite (run_set__state _ _ _ {| heap := h1; console := _ |} H1).
  cbn [heap console]. rewrite run_bind.
  set (t1 := {| _state := Ref (length (heap w ++ [ToasterObj t0])) |}).
  assert (H2 : <[length (heap w) := ToasterObj t1]> h1 !! length (heap w)
               = Some (ToasterObj t1)).
  { apply list_lookup_insert_eq. unfold h1. rewrite !length_app. cbn. lia. }
  rewrite (run_logCurrentState _ _ {| heap := _; console := _ |} H2).
  cbn [run mret JS_ret heap console]. unfold constructed, t1, h1.
  rewrite <- app_assoc, length_app, Nat.add_1_r. cbn [app length].
  rewrite insert_app_r_alt by lia. rewrite Nat.sub_diag. reflexivity.
Qed.

Lemma toaster_at_constructed (w : World) :
  toaster_at (constructed w) (length (heap w)) (S (length (heap w))) IdleState.
Proof.
  split; cbn [constructed heap].
  - now apply list_lookup_middle.
  - change (heap w ++ [?a; ?b]) with (heap w ++ [a] ++ [b]).
    rewrite app_assoc. apply list_lookup_middle.
    rewrite length_app. cbn. lia.
Qed.

Lemma constructed_lookup_old (w : World) (l : loc) :
  l < length (heap w) → heap (constructed w) !! l = heap w !! l.
Proof. intros Hl. cbn [constructed heap]. now apply lookup_app_l. Qed.

Lemma toaster_at_constructed_old (w : World) (d s : loc) (S : ClassName) :
  toaster_at w d s S → toaster_at (constructed w) d s S.
Proof.
  intros H. destruct (toaster_at_bounds _ _ _ _ H) as (Hd & Hs & _).
  destruct H as [H1 H2].
  split; rewrite constructed_lookup_old by assumption; assumption.
Qed.

(** ** Sequences of calls *)

Lemma cycle_log_length (N : nat) : length (cycle_log N) = N * 4.
Proof.
  induction N as [|N IH]; [reflexivity|].
  cbn [cycle_log]. rewrite length_app, IH. cbn [length]. lia.
Qed.

(** One full cycle from Idle, step by step. *)
Lemma run_full_cycle (w : World) (d s : loc) :
  toaster_at w d s IdleState →
  let w1 := committed w d BreadInsertedState in
  let w2 := committed w1 d ToastingState in
  let w3 := committed w2 d BreadEjectedState in
  let w4 := committed w3 d IdleState in
  run (Toaster_insertBread d) w = (Normal (), w1) ∧
  run (Toaster_pullLever d) w1 = (Normal (), w2) ∧
  run (Toaster_ejectBread d) w2 = (Normal (), w3) ∧
  run (Toaster_removeBread d) w3 = (Normal (), w4) ∧
  run (full_cycle d) w = (Normal (), w4).
Proof.
  intros Hat w1 w2 w3 w4.
  assert (Hd : d < length (heap w)) by eapply lookup_lt_Some, Hat.
  assert (H1 : toaster_at w1 d (length (heap w)) BreadInsertedState)
    by now apply toaster_at_committed.
  assert (Hd1 : d < length (heap w1)) by eapply lookup_lt_Some, H1.
  assert (H2 : toaster_at w2 d (length (heap w1)) ToastingState)
    by now apply toaster_at_committed.
  assert (Hd2 : d < length (heap w2)) by eapply lookup_lt_Some, H2.
  assert (H3 : toaster_at w3 d (length (heap w2)) BreadEjectedState)
    by now apply toaster_at_committed.
  assert (E1 : run (Toaster_insertBread d) w = (Normal (), w1))
    by exact (run_call w d s IdleState Hat insertBread).
  assert (E2 : run (Toaster_pullLever d) w1 = (Normal (), w2))
    by exact (run_call w1 d _ BreadInsertedState H1 pullLever).
  assert (E3 : run (Toaster_ejectBread d) w2 = (Normal (), w3))
    by exact (run_call w2 d _ ToastingState H2 ejectBread).
  assert (E4 : run (Toaster_removeBread d) w3 = (Normal (), w4))
    by exact (run_call w3 d _ BreadEjectedState H3 removeBread).
  repeat split; try assumption.
  unfold full_cycle. rewrite run_bind, E1, run_bind, E2, run_bind, E3.
  exact E4.
Qed.

(** ** The script *)

(** The script logs the five states of the first toaster and the initial
    state of the second, then ends on the exception of
    [toaster2.pullLever()]. *)
Lemma script_outcome :
  run script empty_world =
  (Throw (Ref 8),
   {| heap := [ToasterObj {| _state := Ref 5 |}; StateObj IdleState;
               StateObj BreadInsertedState; StateObj ToastingState;
               StateObj BreadEjectedState; StateObj IdleState;
               ToasterObj {| _state := Ref 7 |}; StateObj IdleState;
               invalid_operation];
      console := [Str "testing allowed transitions"; Ref 1; Ref 2; Ref 3;
                  Ref 4; Ref 5; Str "testing disallowed transitions";
                  Ref 7] |}).
Proof. reflexivity. Qed.

(** ** The transitions *)

(** C1: if the transition table has an edge from [S] under [O], then
    calling [O] on a toaster whose current state is [S] returns normally
    and the toaster's current state is the edge's target. *)
Theorem permitted_call_reaches_target
    (w : World) (d : loc) (S T : ClassName) (O : Operation) :
  transition_table S O = Some T →
  current_state w d = Some S →
  ∃ w', run (Toaster_call O d) w = (Normal (), w') ∧
        current_state w' d = Some T.
Proof.
  intros HT [s Hat]%current_state_toaster_at.
  exists (committed w d T). split.
  - by eapply run_call_edge.
  - apply current_state_committed. eapply lookup_lt_Some, Hat.
Qed.

Lemma permitted_call_reaches_target_witness :
  transition_table BreadEjectedState removeBread = Some IdleState ∧
  current_state (toaster_in BreadEjectedState) 0 = Some BreadEjectedState ∧
  ∃ w', run (Toaster_call removeBread 0) (toaster_in BreadEjectedState)
        = (Normal (), w') ∧
        current_state w' 0 = Some IdleState.
Proof.
  split; [reflexivity|]. split; [reflexivity|].
  apply (permitted_call_reaches_target _ 0 BreadEjectedState); reflexivity.
Defined.

(** C2: if the transition table has no edge from [S] under [O], then
    calling [O] on a toaster whose current state is [S] throws an
    [Error] with the message "Invalid operation"; the current state is
    [S] afterwards as before, nothing was logged, and the heap differs
    only by the new error object. *)
Theorem refused_call_leaves_state
    (w : World) (d : loc) (S : ClassName) (O : Operation) :
  transition_table S O = None →
  current_state w d = Some S →
  ∃ e w', run (Toaster_call O d) w = (Throw (Ref e), w') ∧
          heap w' !! e = Some invalid_operation ∧
          current_state w' d = Some S ∧
          heap w' = heap w ++ [invalid_operation] ∧
          console w' = console w.
Proof.
  intros HT HS. pose proof HS as [s Hat]%current_state_toaster_at.
  exists (length (heap w)), (refused w). split; [by eapply run_call_no_edge|].
  split; [now apply list_lookup_middle|].
  split; [now apply current_state_refused|]. split; reflexivity.
Qed.

Lemma refused_call_leaves_state_witness :
  transition_table IdleState pullLever = None ∧
  current_state (toaster_in IdleState) 0 = Some IdleState ∧
  ∃ e w', run (Toaster_call pullLever 0) (toaster_in IdleState)
          = (Throw (Ref e), w') ∧
          heap w' !! e = Some invalid_operation ∧
          current_state w' 0 = Some IdleState ∧
          heap w' = heap (toaster_in IdleState) ++ [invalid_operation] ∧
          console w' = console (toaster_in IdleState).
Proof.
  split; [reflexivity|]. split; [reflexivity|].
  apply (refused_call_leaves_state _ 0 IdleState); reflexivity.
Defined.

(** C4: [new Toaster()] returns a reference to a new toaster whose
    current state is Idle, and appends to the console exactly one entry,
    the reference held in the toaster's [_state] field. *)
Theorem construction_starts_idle_and_logs_once (w : World) :
  ∃ d s w', run new_Toaster w = (Normal d, w') ∧
            heap w !! d = None ∧
            heap w' !! d = Some (ToasterObj {| _state := Ref s |}) ∧
            current_state w' d = Some IdleState ∧
            console w' = console w ++ [Ref s] ∧
            class_of w' (Ref s) = Some IdleState.
Proof.
  exists (length (heap w)), (S (length (heap w))), (constructed w).
  pose proof (toaster_at_constructed w) as Hat.
  split; [apply run_new_Toaster|].
  split; [now apply lookup_ge_None_2|].
  split; [apply Hat|].
  split; [apply current_state_toaster_at; eauto|].
  split; [reflexivity|].
  unfold class_of. now rewrite (proj2 Hat).
Qed.

(** ** The full cycle *)

Lemma cycles_from_idle (N : nat) (w : World) (d s : loc) :
  toaster_at w d s IdleState →
  ∃ w' s' logged,
    run (cycles N d) w = (Normal (), w') ∧
    toaster_at w' d s' IdleState ∧
    console w' = console w ++ logged ∧
    class_of w' <$> logged = Some <$> cycle_log N ∧
    keeps_others d w w'.
Proof.
  revert w s. induction N as [|N IH]; intros w s Hat.
  - exists w, s, []. rewrite app_nil_r.
    split; [reflexivity|]. split; [exact Hat|]. split; [reflexivity|].
    split; [reflexivity|apply keeps_others_refl].
  - destruct (run_full_cycle w d s Hat) as (_ & _ & _ & _ & E).
    set (w1 := committed w d BreadInsertedState) in E.
    set (w2 := committed w1 d ToastingState) in E.
    set (w3 := committed w2 d BreadEjectedState) in E.
    set (w4 := committed w3 d IdleState) in E.
    assert (Hd : d < length (heap w)) by eapply lookup_lt_Some, Hat.
    assert (H1 : toaster_at w1 d (length (heap w)) BreadInsertedState)
      by now apply toaster_at_committed.
    assert (Hd1 : d < length (heap w1)) by eapply lookup_lt_Some, H1.
    assert (H2 : toaster_at w2 d (length (heap w1)) ToastingState)
      by now apply toaster_at_committed.
    assert (Hd2 : d < length (heap w2)) by eapply lookup_lt_Some, H2.
    assert (H3 : toaster_at w3 d (length (heap w2)) BreadEjectedState)
      by now apply toaster_at_committed.
    assert (Hd3 : d < length (heap w3)) by eapply lookup_lt_Some, H3.
    assert (H4 : toaster_at w4 d (length (heap w3)) IdleState)
      by now apply toaster_at_committed.
    destruct (IH w4 _ H4) as (w' & s' & logged & E' & Hat' & Hc & Hcl & K).
    assert (K1 : keeps_others d w1 w')
      by (do 3 (eapply keeps_others_trans;
                [apply keeps_others_committed|]); exact K).
    assert (K2 : keeps_others d w2 w')
      by (do 2 (eapply keeps_others_trans;
                [apply keeps_others_committed|]); exact K).
    assert (K3 : keeps_others d w3 w')
      by (do 1 (eapply keeps_others_trans;
                [apply keeps_others_committed|]); exact K).
    exists w', s',
      ([Ref (length (heap w)); Ref (length (heap w1));
        Ref (length (heap w2)); Ref (length (heap w3))] ++ logged).
    split; [|split; [exact Hat'|split; [|split]]].
    + cbn [cycles]. rewrite run_bind, E. exact E'.
    + rewrite Hc. cbn [w4 w3 w2 w1 committed console].
      rewrite <- !app_assoc. reflexivity.
    + rewrite fmap_app, Hcl. cbn [cycle_log].
      rewrite fmap_app. f_equal. cbn [fmap list_fmap].
      rewrite (class_of_kept _ _ _ _ H1 _ _ BreadInsertedState K1),
              (class_of_kept _ _ _ _ H2 _ _ ToastingState K2),
              (class_of_kept _ _ _ _ H3 _ _ BreadEjectedState K3),
              (class_of_kept _ _ _ _ H4 _ _ IdleState K);
        [reflexivity|..]; unfold class_of.
      * now rewrite (proj2 H4).
      * now rewrite (proj2 H3).
      * now rewrite (proj2 H2).
      * now rewrite (proj2 H1).
    + do 4 (eapply keeps_others_trans; [apply keeps_others_committed|]).
      exact K.
Qed.

(** C5: from a toaster in state Idle, insertBread, pullLever, ejectBread
    and removeBread in this order each return normally, through the states
    BreadInserted, Toasting and BreadEjected back to Idle; and [N] such
    cycles return normally, leave the toaster in Idle, append exactly
    [N * 4] entries to the console (the states reached, in order) and
    change no other object that existed before. *)
Theorem full_cycles_return_to_idle (N : nat) (w : World) (d : loc) :
  current_state w d = Some IdleState →
  (∃ w1 w2 w3 w4,
     run (Toaster_insertBread d) w = (Normal (), w1) ∧
     current_state w1 d = Some BreadInsertedState ∧
     run (Toaster_pullLever d) w1 = (Normal (), w2) ∧
     current_state w2 d = Some ToastingState ∧
     run (Toaster_ejectBread d) w2 = (Normal (), w3) ∧
     current_state w3 d = Some BreadEjectedState ∧
     run (Toaster_removeBread d) w3 = (Normal (), w4) ∧
     current_state w4 d = Some IdleState ∧
     run (full_cycle d) w = (Normal (), w4)) ∧
  ∃ w' logged,
    run (cycles N d) w = (Normal (), w') ∧
    current_state w' d = Some IdleState ∧
    console w' = console w ++ logged ∧
    length logged = N * 4 ∧
    class_of w' <$> logged = Some <$> cycle_log N ∧
    ∀ l, l < length (heap w) → l ≠ d → heap w' !! l = heap w !! l.
Proof.
  intros [s Hat]%current_state_toaster_at. split.
  - destruct (run_full_cycle w d s Hat) as (E1 & E2 & E3 & E4 & E).
    assert (Hd : d < length (heap w)) by eapply lookup_lt_Some, Hat.
    do 4 eexists.
    split; [exact E1|]. split; [apply current_state_committed; lia|].
    split; [exact E2|].
    split; [apply current_state_committed; rewrite committed_length; lia|].
    split; [exact E3|].
    split; [apply current_state_committed; rewrite !committed_length; lia|].
    split; [exact E4|].
    split; [apply current_state_committed; rewrite !committed_length; lia|].
    exact E.
  - destruct (cycles_from_idle N w d s Hat)
      as (w' & s' & logged & E & Hat' & Hc & Hcl & K).
    exists w', logged. split; [exact E|].
    split; [apply current_state_toaster_at; eauto|].
    split; [exact Hc|]. split; [|split; [exact Hcl|apply K]].
    apply (f_equal length) in Hcl. rewrite !length_fmap in Hcl.
    rewrite Hcl. apply cycle_log_length.
Qed.

Lemma full_cycles_return_to_idle_witness :
  current_state (toaster_in IdleState) 0 = Some IdleState ∧
  ∃ w' logged,
    run (cycles 3 0) (toaster_in IdleState) = (Normal (), w') ∧
    current_state w' 0 = Some IdleState ∧
    console w' = console (toaster_in IdleState) ++ logged ∧
    length logged = 3 * 4 ∧
    class_of w' <$> logged = Some <$> cycle_log 3 ∧
    ∀ l, l < length (heap (toaster_in IdleState)) → l ≠ 0 →
         heap w' !! l = heap (toaster_in IdleState) !! l.
Proof.
  split; [reflexivity|].
  apply (full_cycles_return_to_idle 3 (toaster_in IdleState) 0). reflexivity.
Defined.

(** ** The shape of the machine *)

Lemma transition_table_edges (S T : ClassName) (O : Operation) :
  transition_table S O = Some T → In (S, T) cycle_edges.
Proof. destruct S, O; intros [= <-]; cbn; tauto. Qed.

Lemma transition_table_functional (S : ClassName) (O1 O2 : Operation) :
  is_Some (transition_table S O1) → is_Some (transition_table S O2) →
  O1 = O2.
Proof. destruct S, O1, O2; intros [? H1] [? H2]; done. Qed.

(** C6: from a toaster's current state at most one operation returns
    normally; from each of the four concrete states one does and the
    other three throw, leaving the toaster, its state and the console as
    they were; and the transitions that calls can make between states are
    exactly the four edges Idle → BreadInserted → Toasting → BreadEjected
    → Idle: each state has one successor, every concrete state reaches
    every other along them, and none skips a state. *)
Theorem machine_is_a_four_cycle (w : World) (d : loc) (S : ClassName) :
  current_state w d = Some S →
  (∀ O1 O2 w1 w2,
     run (Toaster_call O1 d) w = (Normal (), w1) →
     run (Toaster_call O2 d) w = (Normal (), w2) → O1 = O2) ∧
  (concrete S = true →
   ∃ O T w', run (Toaster_call O d) w = (Normal (), w') ∧
             current_state w' d = Some T ∧ In (S, T) cycle_edges ∧
             ∀ O', O' ≠ O →
               ∃ e w'', run (Toaster_call O' d) w = (Throw e, w'') ∧
                        current_state w'' d = Some S ∧
                        heap w'' !! d = heap w !! d ∧
                        console w'' = console w) ∧
  (∀ S1 S2, transition S1 S2 ↔ In (S1, S2) cycle_edges) ∧
  (∀ S1 S2 S3, transition S1 S2 → transition S1 S3 → S2 = S3) ∧
  (∀ S1 S2, concrete S1 = true → concrete S2 = true →
            rtc transition S1 S2) ∧
  ¬ transition IdleState ToastingState.
Proof.
  intros HS. pose proof HS as [s Hat]%current_state_toaster_at.
  assert (Hd : d < length (heap w)) by eapply lookup_lt_Some, Hat.
  assert (Hedges : ∀ S1 S2, transition S1 S2 ↔ In (S1, S2) cycle_edges).
  { intros S1 S2. split.
    - intros (w0 & d0 & O & w' & H0 & E & H').
      apply current_state_toaster_at in H0 as [s0 Hat0].
      rewrite (run_call _ _ _ _ Hat0 O) in E.
      destruct (transition_table S1 O) as [T|] eqn:HT; [|discriminate].
      injection E as <-.
      rewrite current_state_committed in H'
        by eapply lookup_lt_Some, Hat0.
      injection H' as <-. by eapply transition_table_edges.
    - intros Hin. cbn in Hin.
      destruct Hin as [[= <- <-]|[[= <- <-]|[[= <- <-]|[[= <- <-]|[]]]]].
      + exists (toaster_in IdleState), 0, insertBread. by eexists.
      + exists (toaster_in BreadInsertedState), 0, pullLever. by eexists.
      + exists (toaster_in ToastingState), 0, ejectBread. by eexists.
      + exists (toaster_in BreadEjectedState), 0, removeBread. by eexists. }
  split; [|split; [|split; [exact Hedges|split; [|split]]]].
  - intros O1 O2 w1 w2 E1 E2.
    rewrite (run_call _ _ _ _ Hat O1) in E1.
    rewrite (run_call _ _ _ _ Hat O2) in E2.
    apply (transition_table_functional S).
    + destruct (transition_table S O1); [eauto|discriminate].
    + destruct (transition_table S O2); [eauto|discriminate].
  - intros Hc.
    assert (∃ O T, transition_table S O = Some T) as (O & T & HT).
    { destruct S; [discriminate|..].
      - by exists insertBread, BreadInsertedState.
      - by exists pullLever, ToastingState.
      - by exists ejectBread, BreadEjectedState.
      - by exists removeBread, IdleState. }
    exists O, T, (committed w d T).
    split; [by eapply run_call_edge|].
    split; [now apply current_state_committed|].
    split; [by eapply transition_table_edges|].
    intros O' Hne.
    assert (HT' : transition_table S O' = None).
    { destruct (transition_table S O') as [T'|] eqn:E; [|reflexivity].
      destruct Hne. apply (transition_table_functional S); eauto. }
    exists (Ref (length (heap w))), (refused w).
    split; [by eapply run_call_no_edge|].
    split; [now apply current_state_refused|].
    split; [now apply refused_lookup_old|reflexivity].
  - intros S1 S2 S3. rewrite !Hedges. cbn.
    intros [|[|[|[|[]]]]] [|[|[|[|[]]]]]; congruence.
  - assert (T1 : transition IdleState BreadInsertedState)
      by (apply Hedges; cbn; tauto).
    assert (T2 : transition BreadInsertedState ToastingState)
      by (apply Hedges; cbn; tauto).
    assert (T3 : transition ToastingState BreadEjectedState)
      by (apply Hedges; cbn; tauto).
    assert (T4 : transition BreadEjectedState IdleState)
      by (apply Hedges; cbn; tauto).
    intros [] []; try discriminate; intros _ _;
      eauto 6 using rtc_refl, rtc_l.
  - rewrite Hedges. cbn. intros [|[|[|[|[]]]]]; discriminate.
Qed.

Lemma machine_is_a_four_cycle_witness :
  current_state (toaster_in ToastingState) 0 = Some ToastingState ∧
  ∀ O1 O2 w1 w2,
    run (Toaster_call O1 0) (toaster_in ToastingState) = (Normal (), w1) →
    run (Toaster_call O2 0) (toaster_in ToastingState) = (Normal (), w2) →
    O1 = O2.
Proof.
  split; [reflexivity|].
  apply (machine_is_a_four_cycle (toaster_in ToastingState) 0 ToastingState).
  reflexivity.
Defined.

(** ** Logging *)

(** C7: a call on a toaster with a current state either returns
    normally, and then exactly one entry was appended to the console,
    the reference now held in [_state] (the new current state), no other
    object that existed before being changed; or it throws, and then the
    console and every object that existed before are as they were. *)
Theorem call_logs_once_on_success_only
    (w : World) (d : loc) (S : ClassName) (O : Operation) :
  current_state w d = Some S →
  match run (Toaster_call O d) w with
  | (Normal _, w') =>
      ∃ s' T,
        heap w' !! d = Some (ToasterObj {| _state := Ref s' |}) ∧
        console w' = console w ++ [Ref s'] ∧
        class_of w' (Ref s') = Some T ∧
        current_state w' d = Some T ∧
        ∀ l, l < length (heap w) → l ≠ d → heap w' !! l = heap w !! l
  | (Throw _, w') =>
      console w' = console w ∧
      ∀ l, l < length (heap w) → heap w' !! l = heap w !! l
  | (Wrong, _) => False
  end.
Proof.
  intros [s Hat]%current_state_toaster_at.
  assert (Hd : d < length (heap w)) by eapply lookup_lt_Some, Hat.
  rewrite (run_call _ _ _ _ Hat O).
  destruct (transition_table S O) as [T|].
  - exists (length (heap w)), T.
    pose proof (toaster_at_committed w d T Hd) as [H1 H2].
    split; [exact H1|]. split; [reflexivity|].
    split; [unfold class_of; now rewrite H2|].
    split; [now apply current_state_committed|].
    intros l Hl Hne. now apply committed_lookup_other.
  - split; [reflexivity|]. intros l Hl. now apply refused_lookup_old.
Qed.

Lemma call_logs_once_on_success_only_witness :
  current_state (toaster_in IdleState) 0 = Some IdleState ∧
  match run (Toaster_call insertBread 0) (toaster_in IdleState) with
  | (Normal _, w') =>
      ∃ s' T,
        heap w' !! 0 = Some (ToasterObj {| _state := Ref s' |}) ∧
        console w' = console (toaster_in IdleState) ++ [Ref s'] ∧
        class_of w' (Ref s') = Some T ∧
        current_state w' 0 = Some T ∧
        ∀ l, l < length (heap (toaster_in IdleState)) → l ≠ 0 →
             heap w' !! l = heap (toaster_in IdleState) !! l
  | (Throw _, w') =>
      console w' = console (toaster_in IdleState) ∧
      ∀ l, l < length (heap (toaster_in IdleState)) →
           heap w' !! l = heap (toaster_in IdleState) !! l
  | (Wrong, _) => False
  end.
Proof.
  split; [reflexivity|].
  apply (call_logs_once_on_success_only (toaster_in IdleState) 0 IdleState).
  reflexivity.
Defined.

(** ** The state objects *)

(** C8: a state method with an edge in the table returns a reference to
    a new object of the target class, which the receiver's class and the
    operation determine; it adds that object to the heap and changes
    nothing else, so the receiver is as it was. *)
Theorem state_operation_returns_new_value
    (w : World) (s : loc) (S T : ClassName) (O : Operation) :
  heap w !! s = Some (StateObj S) →
  transition_table S O = Some T →
  ∃ r w', run (invoke (Ref s) O) w = (Normal (Ref r), w') ∧
          heap w !! r = None ∧
          heap w' = heap w ++ [StateObj T] ∧
          heap w' !! r = Some (StateObj T) ∧
          heap w' !! s = Some (StateObj S) ∧
          console w' = console w.
Proof.
  intros Hs HT. exists (length (heap w)); eexists.
  split; [by eapply run_invoke_edge|]. cbn [heap console].
  split; [now apply lookup_ge_None_2|]. split; [reflexivity|].
  split; [now apply list_lookup_middle|].
  split; [now apply lookup_app_l_Some|reflexivity].
Qed.

Lemma state_operation_returns_new_value_witness :
  heap (toaster_in BreadInsertedState) !! 1
  = Some (StateObj BreadInsertedState) ∧
  transition_table BreadInsertedState pullLever = Some ToastingState ∧
  ∃ r w', run (invoke (Ref 1) pullLever) (toaster_in BreadInsertedState)
          = (Normal (Ref r), w') ∧
          heap (toaster_in BreadInsertedState) !! r = None ∧
          heap w' = heap (toaster_in BreadInsertedState)
                    ++ [StateObj ToastingState] ∧
          heap w' !! r = Some (StateObj ToastingState) ∧
          heap w' !! 1 = Some (StateObj BreadInsertedState) ∧
          console w' = console (toaster_in BreadInsertedState).
Proof.
  split; [reflexivity|]. split; [reflexivity|].
  apply (state_operation_returns_new_value _ 1 BreadInsertedState);
    reflexivity.
Defined.

(** ** The invariant of the [_state] field *)

Lemma holds_concrete_state_spec (w : World) (d : loc) :
  holds_concrete_state w d = true ↔
  ∃ s S, toaster_at w d s S ∧ concrete S = true.
Proof.
  unfold holds_concrete_state. split.
  - destruct (current_state w d) as [S|] eqn:HS; [|discriminate].
    apply current_state_toaster_at in HS as [s Hat]. eauto.
  - intros (s & S & Hat & Hc).
    assert (HS : current_state w d = Some S)
      by (apply current_state_toaster_at; eauto).
    now rewrite HS.
Qed.

Lemma transition_table_concrete (S T : ClassName) (O : Operation) :
  transition_table S O = Some T → concrete T = true.
Proof. destruct S, O; intros [= <-]; reflexivity. Qed.

Lemma call_keeps_concrete (w : World) (d : loc) (O : Operation) :
  holds_concrete_state w d = true →
  (run (Toaster_call O d) w).1 ≠ Wrong ∧
  holds_concrete_state (run (Toaster_call O d) w).2 d = true.
Proof.
  intros (s & S & Hat & Hc)%holds_concrete_state_spec.
  assert (Hd : d < length (heap w)) by eapply lookup_lt_Some, Hat.
  rewrite (run_call _ _ _ _ Hat O).
  destruct (transition_table S O) as [T|] eqn:HT; cbn [fst snd].
  - split; [discriminate|]. apply holds_concrete_state_spec.
    exists (length (heap w)), T.
    split; [now apply toaster_at_committed|].
    by eapply transition_table_concrete.
  - split; [discriminate|]. apply holds_concrete_state_spec.
    exists s, S. split; [now apply toaster_at_refused|exact Hc].
Qed.

Lemma drive_keeps_concrete (ops : list Operation) (w : World) (d : loc) :
  holds_concrete_state w d = true →
  holds_concrete_state (drive ops d w) d = true.
Proof.
  revert w. induction ops as [|O ops IH]; intros w H; [exact H|].
  cbn [drive foldl]. apply IH. now apply call_keeps_concrete.
Qed.

(** C9: after construction the toaster's [_state] field refers to an
    instance of one of the four concrete state classes; every call,
    whether it returns or throws, keeps it so and never meets a value
    without the method; hence it is so after any series of calls on a
    new toaster. *)
Theorem state_field_always_concrete :
  (∀ w, ∃ d w', run new_Toaster w = (Normal d, w') ∧
                holds_concrete_state w' d = true) ∧
  (∀ w d O, holds_concrete_state w d = true →
            (run (Toaster_call O d) w).1 ≠ Wrong ∧
            holds_concrete_state (run (Toaster_call O d) w).2 d = true) ∧
  (∀ w ops, ∃ d w', run new_Toaster w = (Normal d, w') ∧
                    holds_concrete_state (drive ops d w') d = true).
Proof.
  assert (Hnew : ∀ w, ∃ d w', run new_Toaster w = (Normal d, w') ∧
                              holds_concrete_state w' d = true).
  { intros w. exists (length (heap w)), (constructed w).
    split; [apply run_new_Toaster|]. apply holds_concrete_state_spec.
    exists (S (length (heap w))), IdleState.
    split; [apply toaster_at_constructed|reflexivity]. }
  split; [exact Hnew|]. split; [exact call_keeps_concrete|].
  intros w ops. destruct (Hnew w) as (d & w' & E & H).
  exists d, w'. split; [exact E|]. now apply drive_keeps_concrete.
Qed.

Lemma state_field_always_concrete_witness :
  holds_concrete_state (toaster_in BreadEjectedState) 0 = true ∧
  (run (Toaster_call pullLever 0) (toaster_in BreadEjectedState)).1 ≠ Wrong ∧
  holds_concrete_state
    (run (Toaster_call pullLever 0) (toaster_in BreadEjectedState)).2 0
  = true.
Proof.
  split; [reflexivity|].
  apply (proj1 (proj2 state_field_always_concrete)
               (toaster_in BreadEjectedState) 0 pullLever).
  reflexivity.
Defined.

(** ** Two toasters *)

Lemma full_cycle_other_toaster
    (w : World) (d s d' s' : loc) (S' : ClassName) :
  toaster_at w d s IdleState → d' ≠ d → toaster_at w d' s' S' →
  ∃ w', run (full_cycle d) w = (Normal (), w') ∧
        current_state w' d = Some IdleState ∧
        toaster_at w' d' s' S'.
Proof.
  intros Hat Hne H'.
  destruct (cycles_from_idle 1 w d s Hat)
    as (w' & s1 & logged & E & Hat' & _ & _ & K).
  destruct (run_full_cycle w d s Hat) as (_ & _ & _ & _ & E1).
  cbn [cycles] in E. rewrite run_bind, E1 in E.
  cbn [run mret JS_ret] in E. injection E as E. subst w'.
  eexists. split; [exact E1|].
  split; [apply current_state_toaster_at; eauto|].
  exact (toaster_at_kept _ _ _ _ Hat _ _ _ _ Hne K H').
Qed.

(** C10: of two toasters constructed one after the other, each has its
    own state object; driving either through the full cycle returns
    normally and leaves the other toaster's object untouched and its
    current state Idle. *)
Theorem toasters_are_independent (w : World) :
  ∃ d1 w1 d2 w2,
    run new_Toaster w = (Normal d1, w1) ∧
    run new_Toaster w1 = (Normal d2, w2) ∧
    d1 ≠ d2 ∧
    heap w2 !! d1 ≠ heap w2 !! d2 ∧
    current_state w2 d1 = Some IdleState ∧
    current_state w2 d2 = Some IdleState ∧
    (∃ w3, run (full_cycle d1) w2 = (Normal (), w3) ∧
           current_state w3 d1 = Some IdleState ∧
           heap w3 !! d2 = heap w2 !! d2 ∧
           current_state w3 d2 = Some IdleState) ∧
    (∃ w3, run (full_cycle d2) w2 = (Normal (), w3) ∧
           current_state w3 d2 = Some IdleState ∧
           heap w3 !! d1 = heap w2 !! d1 ∧
           current_state w3 d1 = Some IdleState).
Proof.
  set (w1 := constructed w). set (w2 := constructed w1).
  exists (length (heap w)), w1, (length (heap w1)), w2.
  assert (L : length (heap w1) = S (S (length (heap w)))).
  { cbn [w1 constructed heap]. rewrite length_app. cbn [length]. lia. }
  assert (A1 : toaster_at w2 (length (heap w)) (S (length (heap w))) IdleState)
    by apply toaster_at_constructed_old, toaster_at_constructed.
  assert (A2 : toaster_at w2 (length (heap w1)) (S (length (heap w1)))
                 IdleState) by apply toaster_at_constructed.
  assert (Hne : length (heap w) ≠ length (heap w1)) by lia.
  split; [apply run_new_Toaster|]. split; [apply run_new_Toaster|].
  split; [exact Hne|].
  split; [rewrite (proj1 A1), (proj1 A2); intros [= E]; exact (Hne E)|].
  split; [apply current_state_toaster_at; eauto|].
  split; [apply current_state_toaster_at; eauto|]. split.
  - destruct (full_cycle_other_toaster w2 _ _ _ _ _ A1 (not_eq_sym Hne) A2)
      as (w3 & E & H1 & H2).
    exists w3. split; [exact E|]. split; [exact H1|].
    split; [rewrite (proj1 H2), (proj1 A2); reflexivity|].
    apply current_state_toaster_at; eauto.
  - destruct (full_cycle_other_toaster w2 _ _ _ _ _ A2 Hne A1)
      as (w3 & E & H1 & H2).
    exists w3. split; [exact E|]. split; [exact H1|].
    split; [rewrite (proj1 H2), (proj1 A1); reflexivity|].
    apply current_state_toaster_at; eauto.
Qed.

(** ** Series of calls *)

Lemma keeps_others_refused (d : loc) (w : World) :
  keeps_others d w (refused w).
Proof.
  split; [cbn [refused heap]; rewrite length_app; lia|].
  intros l Hl _. now apply refused_lookup_old.
Qed.

Lemma drive_cons (O : Operation) (ops : list Operation) (d : loc) (w : World) :
  drive (O :: ops) d w = drive ops d (run (Toaster_call O d) w).2.
Proof. reflexivity. Qed.

(** What a series of calls does to a toaster in state [S]. *)
Lemma drive_from (ops : list Operation) (w : World) (d s : loc) (S : ClassName) :
  toaster_at w d s S →
  ∃ s' logged,
    toaster_at (drive ops d w) d s' (foldl step_state S ops) ∧
    console (drive ops d w) = console w ++ logged ∧
    class_of (drive ops d w) <$> logged = Some <$> visited S ops ∧
    last (Ref s :: logged) = Some (Ref s') ∧
    keeps_others d w (drive ops d w) ∧
    length (heap (drive ops d w)) = length (heap w) + length ops.
Proof.
  revert w s S. induction ops as [|O ops IH]; intros w s S Hat.
  - exists s, []. cbn [drive foldl visited length]. rewrite app_nil_r.
    split; [exact Hat|]. split; [reflexivity|]. split; [reflexivity|].
    split; [reflexivity|]. split; [apply keeps_others_refl|lia].
  - assert (Hd : d < length (heap w)) by eapply lookup_lt_Some, Hat.
    rewrite drive_cons, (run_call _ _ _ _ Hat O).
    cbn [foldl visited]. unfold step_state at 2.
    destruct (transition_table S O) as [T|]; cbn [snd default].
    + pose proof (toaster_at_committed w d T Hd) as Hat1.
      destruct (IH _ _ _ Hat1) as (s' & logged & H1 & Hc & Hcl & Hl & K & Hn).
      exists s', (Ref (length (heap w)) :: logged).
      split; [exact H1|]. split.
      { rewrite Hc. cbn [committed console]. now rewrite <- app_assoc. }
      split.
      { cbn [fmap list_fmap]. f_equal; [|exact Hcl].
        apply (class_of_kept _ _ _ _ Hat1 _ _ _ K).
        unfold class_of. now rewrite (proj2 Hat1). }
      split; [rewrite last_cons_cons; exact Hl|]. split.
      { eapply keeps_others_trans; [apply keeps_others_committed|exact K]. }
      rewrite Hn, committed_length. cbn [length]. lia.
    + pose proof (toaster_at_refused _ _ _ _ Hat) as Hat1.
      destruct (IH _ _ _ Hat1) as (s' & logged & H1 & Hc & Hcl & Hl & K & Hn).
      exists s', logged.
      split; [exact H1|]. split; [exact Hc|]. split; [exact Hcl|].
      split; [exact Hl|]. split.
      { eapply keeps_others_trans; [apply keeps_others_refused|exact K]. }
      rewrite Hn. cbn [refused heap length]. rewrite length_app.
      cbn [length]. lia.
Qed.

(** X1: a refused call does not spoil the toaster: after it, the call that
    has an edge from the same state returns normally, reaches the edge's
    target and logs it, as if the refused call had not been made. *)
Theorem permitted_call_after_refused_call
    (w : World) (d : loc) (S T : ClassName) (O O' : Operation) :
  current_state w d = Some S →
  transition_table S O = None →
  transition_table S O' = Some T →
  ∃ e w1 w2 s',
    run (Toaster_call O d) w = (Throw e, w1) ∧
    run (Toaster_call O' d) w1 = (Normal (), w2) ∧
    current_state w2 d = Some T ∧
    console w2 = console w ++ [Ref s'] ∧
    class_of w2 (Ref s') = Some T.
Proof.
  intros [s Hat]%current_state_toaster_at HN HT.
  pose proof (toaster_at_refused _ _ _ _ Hat) as Hat1.
  assert (Hd1 : d < length (heap (refused w))) by eapply lookup_lt_Some, Hat1.
  exists (Ref (length (heap w))), (refused w), (committed (refused w) d T),
         (length (heap (refused w))).
  split; [now apply (run_call_no_edge _ _ _ _ Hat)|].
  split; [now apply (run_call_edge _ _ _ _ Hat1)|].
  split; [now apply current_state_committed|].
  split; [reflexivity|].
  unfold class_of. now rewrite committed_lookup_new.
Qed.

Lemma permitted_call_after_refused_call_witness :
  current_state (toaster_in ToastingState) 0 = Some ToastingState ∧
  transition_table ToastingState pullLever = None ∧
  transition_table ToastingState ejectBread = Some BreadEjectedState ∧
  ∃ e w1 w2 s',
    run (Toaster_call pullLever 0) (toaster_in ToastingState) = (Throw e, w1) ∧
    run (Toaster_call ejectBread 0) w1 = (Normal (), w2) ∧
    current_state w2 0 = Some BreadEjectedState ∧
    console w2 = console (toaster_in ToastingState) ++ [Ref s'] ∧
    class_of w2 (Ref s') = Some BreadEjectedState.
Proof.
  split; [reflexivity|]. split; [reflexivity|]. split; [reflexivity|].
  apply (permitted_call_after_refused_call
           (toaster_in ToastingState) 0 ToastingState); reflexivity.
Defined.

(** X2: a series of calls whose refused ones the caller survives leaves
    the toaster in the state reached by following, from its state, the
    edge of each call that has one; the console gains exactly the states
    so entered, in order; no other object that existed before changes. *)
Theorem drive_follows_edges
    (ops : list Operation) (w : World) (d : loc) (S : ClassName) :
  current_state w d = Some S →
  current_state (drive ops d w) d = Some (foldl step_state S ops) ∧
  (∃ logged,
     console (drive ops d w) = console w ++ logged ∧
     class_of (drive ops d w) <$> logged = Some <$> visited S ops) ∧
  ∀ l, l < length (heap w) → l ≠ d → heap (drive ops d w) !! l = heap w !! l.
Proof.
  intros [s Hat]%current_state_toaster_at.
  destruct (drive_from ops w d s S Hat)
    as (s' & logged & H1 & Hc & Hcl & _ & K & _).
  split; [apply current_state_toaster_at; eauto|].
  split; [eauto|apply K].
Qed.

Lemma drive_follows_edges_witness :
  current_state (toaster_in IdleState) 0 = Some IdleState ∧
  current_state
    (drive [pullLever; insertBread; insertBread; pullLever] 0
           (toaster_in IdleState)) 0
  = Some ToastingState.
Proof.
  split; [reflexivity|].
  apply (drive_follows_edges [pullLever; insertBread; insertBread; pullLever]
           (toaster_in IdleState) 0 IdleState).
  reflexivity.
Defined.

(** X3: a call that returns normally never reuses a state object: the
    reference it puts in [_state] pointed to nothing before the call and
    differs from the one held before, and the state object held before is
    still in the heap, unchanged.  So a toaster back in Idle holds another
    [IdleState] instance than the one it started with. *)
Theorem successful_call_installs_new_object
    (w w' : World) (d : loc) (S : ClassName) (O : Operation) :
  current_state w d = Some S →
  run (Toaster_call O d) w = (Normal (), w') →
  ∃ s s',
    heap w !! d = Some (ToasterObj {| _state := Ref s |}) ∧
    heap w' !! d = Some (ToasterObj {| _state := Ref s' |}) ∧
    s' ≠ s ∧
    heap w !! s' = None ∧
    heap w' !! s = Some (StateObj S).
Proof.
  intros [s Hat]%current_state_toaster_at E.
  destruct (toaster_at_bounds _ _ _ _ Hat) as (Hd & Hs & Hne).
  rewrite (run_call _ _ _ _ Hat O) in E.
  destruct (transition_table S O) as [T|]; [|discriminate].
  injection E as <-. exists s, (length (heap w)).
  split; [apply Hat|]. split; [now apply committed_lookup_self|].
  split; [lia|]. split; [now apply lookup_ge_None_2|].
  rewrite committed_lookup_other by assumption. apply Hat.
Qed.

Lemma successful_call_installs_new_object_witness :
  current_state (toaster_in BreadEjectedState) 0 = Some BreadEjectedState ∧
  ∃ s s',
    heap (toaster_in BreadEjectedState) !! 0
    = Some (ToasterObj {| _state := Ref s |}) ∧
    heap (run (Toaster_call removeBread 0) (toaster_in BreadEjectedState)).2
      !! 0 = Some (ToasterObj {| _state := Ref s' |}) ∧
    s' ≠ s ∧
    heap (toaster_in BreadEjectedState) !! s' = None ∧
    heap (run (Toaster_call removeBread 0) (toaster_in BreadEjectedState)).2
      !! s = Some (StateObj BreadEjectedState).
Proof.
  split; [reflexivity|].
  apply (successful_call_installs_new_object
           (toaster_in BreadEjectedState) _ 0 BreadEjectedState removeBread);
    reflexivity.
Defined.

(** X4: every state class answers every operation.  Called on an
    instance of any of the five classes, each of the four methods is
    found (in the class or in [ToasterState]) and either returns a
    reference to a new instance of a concrete class or throws a new
    "Invalid operation" error; either way the heap gains that one object
    and the console is untouched. *)
Theorem state_method_always_found
    (w : World) (s : loc) (S : ClassName) (O : Operation) :
  heap w !! s = Some (StateObj S) →
  is_Some (resolve S O) ∧
  ∃ c o,
    run (invoke (Ref s) O) w
    = (c, {| heap := heap w ++ [o]; console := console w |}) ∧
    ((∃ T, c = Normal (Ref (length (heap w))) ∧ o = StateObj T ∧
           concrete T = true) ∨
     (c = Throw (Ref (length (heap w))) ∧ o = invalid_operation)).
Proof.
  intros Hs. split; [destruct S, O; cbn; eauto|].
  destruct (transition_table S O) as [T|] eqn:HT.
  - exists (Normal (Ref (length (heap w)))), (StateObj T).
    split; [by eapply run_invoke_edge|]. left. exists T.
    split; [reflexivity|]. split; [reflexivity|].
    by eapply transition_table_concrete.
  - exists (Throw (Ref (length (heap w)))), invalid_operation.
    split; [by eapply run_invoke_no_edge|]. now right.
Qed.

Lemma state_method_always_found_witness :
  heap (toaster_in IdleState) !! 1 = Some (StateObj IdleState) ∧
  is_Some (resolve IdleState removeBread).
Proof.
  split; [reflexivity|].
  apply (state_method_always_found (toaster_in IdleState) 1 IdleState
           removeBread).
  reflexivity.
Defined.

(** X5: constructing a toaster disturbs no toaster that exists already,
    whatever state that one is in: the new toaster is another object,
    the existing one and its current state are as before, and the console
    gains the one entry of the construction. *)
Theorem construction_keeps_existing_toaster
    (w : World) (d : loc) (S : ClassName) :
  current_state w d = Some S →
  ∃ d' w' r,
    run new_Toaster w = (Normal d', w') ∧
    d' ≠ d ∧
    heap w' !! d = heap w !! d ∧
    current_state w' d = Some S ∧
    current_state w' d' = Some IdleState ∧
    console w' = console w ++ [Ref r] ∧
    heap w !! r = None.
Proof.
  intros [s Hat]%current_state_toaster_at.
  destruct (toaster_at_bounds _ _ _ _ Hat) as (Hd & Hs & _).
  exists (length (heap w)), (constructed w), (Datatypes.S (length (heap w))).
  split; [apply run_new_Toaster|]. split; [lia|].
  split; [now apply constructed_lookup_old|].
  split; [apply current_state_toaster_at; exists s;
          now apply toaster_at_constructed_old|].
  split; [apply current_state_toaster_at; eexists;
          apply toaster_at_constructed|].
  split; [reflexivity|]. apply lookup_ge_None_2. lia.
Qed.

Lemma construction_keeps_existing_toaster_witness :
  current_state (toaster_in ToastingState) 0 = Some ToastingState ∧
  ∃ d' w' r,
    run new_Toaster (toaster_in ToastingState) = (Normal d', w') ∧
    d' ≠ 0 ∧
    heap w' !! 0 = heap (toaster_in ToastingState) !! 0 ∧
    current_state w' 0 = Some ToastingState ∧
    current_state w' d' = Some IdleState ∧
    console w' = console (toaster_in ToastingState) ++ [Ref r] ∧
    heap (toaster_in ToastingState) !! r = None.
Proof.
  split; [reflexivity|].
  apply (construction_keeps_existing_toaster (toaster_in ToastingState) 0
           ToastingState).
  reflexivity.
Defined.

Lemma drive_other_toaster
    (ops : list Operation) (w : World) (d s d' s' : loc) (S S' : ClassName) :
  toaster_at w d s S → d' ≠ d → toaster_at w d' s' S' →
  toaster_at (drive ops d w) d' s' S'.
Proof.
  intros Hat Hne H'.
  destruct (drive_from ops w d s S Hat) as (_ & _ & _ & _ & _ & _ & K & _).
  exact (toaster_at_kept _ _ _ _ Hat _ _ _ _ Hne K H').
Qed.

(** X6: series of calls on two toasters do not interfere, whatever the
    states and the series: a series on one leaves the other's object and
    state as they were, and after a series on each, each toaster is in the
    state its own series leads to. *)
Theorem series_on_two_toasters_independent
    (ops1 ops2 : list Operation) (w : World) (d1 d2 : loc)
    (S1 S2 : ClassName) :
  d1 ≠ d2 →
  current_state w d1 = Some S1 →
  current_state w d2 = Some S2 →
  heap (drive ops1 d1 w) !! d2 = heap w !! d2 ∧
  current_state (drive ops1 d1 w) d2 = Some S2 ∧
  current_state (drive ops2 d2 (drive ops1 d1 w)) d1
  = Some (foldl step_state S1 ops1) ∧
  current_state (drive ops2 d2 (drive ops1 d1 w)) d2
  = Some (foldl step_state S2 ops2).
Proof.
  intros Hne [s1 A1]%current_state_toaster_at [s2 A2]%current_state_toaster_at.
  pose proof (drive_other_toaster ops1 w d1 s1 d2 s2 S1 S2 A1
                (not_eq_sym Hne) A2) as B2.
  destruct (drive_from ops1 w d1 s1 S1 A1) as (s1' & _ & B1 & _).
  pose proof (drive_other_toaster ops2 _ d2 s2 d1 s1' _ _ B2 Hne B1) as C1.
  destruct (drive_from ops2 _ d2 s2 S2 B2) as (s2' & _ & C2 & _).
  split; [rewrite (proj1 B2), (proj1 A2); reflexivity|].
  repeat split; apply current_state_toaster_at; eauto.
Qed.

Lemma series_on_two_toasters_independent_witness :
  0 ≠ 2 ∧
  current_state (toasters_in IdleState ToastingState) 0 = Some IdleState ∧
  current_state (toasters_in IdleState ToastingState) 2 = Some ToastingState ∧
  current_state
    (drive [pullLever; ejectBread] 2
       (drive [insertBread; ejectBread] 0
          (toasters_in IdleState ToastingState))) 0
  = Some BreadInsertedState.
Proof.
  split; [lia|]. split; [reflexivity|]. split; [reflexivity|].
  apply (series_on_two_toasters_independent
           [insertBread; ejectBread] [pullLever; ejectBread]
           (toasters_in IdleState ToastingState) 0 2 IdleState ToastingState);
    [lia|reflexivity|reflexivity].
Defined.

(** ** Counting the steps round the cycle *)

Lemma position_edge (S T : ClassName) (O : Operation) :
  transition_table S O = Some T → position T = (position S + 1) mod 4.
Proof. destruct S, O; intros [= <-]; reflexivity. Qed.

Lemma position_visited (ops : list Operation) (S : ClassName) :
  (position S + length (visited S ops)) mod 4
  = position (foldl step_state S ops).
Proof.
  revert S. induction ops as [|O ops IH]; intros S.
  - cbn [visited length foldl]. rewrite Nat.add_0_r.
    apply Nat.mod_small. destruct S; cbn; lia.
  - cbn [visited foldl]. unfold step_state at 2.
    destruct (transition_table S O) as [T|] eqn:HT; cbn [default].
    + unfold id. rewrite <- IH, (position_edge _ _ _ HT). cbn [length].
      rewrite Nat.Div0.add_mod_idemp_l. f_equal. lia.
    + apply IH.
Qed.

(** X7: a toaster comes back to the state it was in only after a
    multiple of four successful calls: if a series of calls, refused ones
    included, ends in the state it started in, the number of console
    entries it added is a multiple of four. *)
Theorem same_state_after_multiple_of_four
    (ops : list Operation) (w : World) (d : loc) (S : ClassName) :
  current_state w d = Some S →
  current_state (drive ops d w) d = Some S →
  ∃ k, length (console (drive ops d w)) = length (console w) + 4 * k.
Proof.
  intros [s Hat]%current_state_toaster_at HS.
  destruct (drive_from ops w d s S Hat)
    as (s' & logged & H1 & Hc & Hcl & _).
  assert (HF : current_state (drive ops d w) d = Some (foldl step_state S ops))
    by (apply current_state_toaster_at; eauto).
  rewrite HS in HF. injection HF as HF.
  apply (f_equal length) in Hcl. rewrite !length_fmap in Hcl.
  pose proof (position_visited ops S) as HP. rewrite <- HF in HP.
  assert (Hp : position S < 4) by (destruct S; cbn; lia).
  exists ((position S + length (visited S ops)) / 4).
  rewrite Hc, length_app, Hcl.
  pose proof (Nat.div_mod_eq (position S + length (visited S ops)) 4).
  lia.
Qed.

Lemma same_state_after_multiple_of_four_witness :
  current_state (toaster_in ToastingState) 0 = Some ToastingState ∧
  current_state
    (drive [ejectBread; pullLever; removeBread; insertBread; pullLever] 0
       (toaster_in ToastingState)) 0 = Some ToastingState ∧
  ∃ k, length (console
         (drive [ejectBread; pullLever; removeBread; insertBread; pullLever] 0
            (toaster_in ToastingState)))
       = length (console (toaster_in ToastingState)) + 4 * k.
Proof.
  split; [reflexivity|]. split; [reflexivity|].
  apply (same_state_after_multiple_of_four
           [ejectBread; pullLever; removeBread; insertBread; pullLever]
           (toaster_in ToastingState) 0 ToastingState); reflexivity.
Defined.

(** X8: the console stays in step with a toaster that is the only one
    used since its construction: after [new Toaster()] and any series of
    calls on it, refused ones included, the last console entry is the
    reference held in the toaster's [_state] field. *)
Theorem last_entry_is_current_state (w : World) (ops : list Operation) :
  ∃ d w' s,
    run new_Toaster w = (Normal d, w') ∧
    heap (drive ops d w') !! d = Some (ToasterObj {| _state := Ref s |}) ∧
    last (console (drive ops d w')) = Some (Ref s).
Proof.
  pose proof (toaster_at_constructed w) as Hat.
  destruct (drive_from ops _ _ _ _ Hat) as (s' & logged & H1 & Hc & _ & Hl & _).
  exists (length (heap w)), (constructed w), s'.
  split; [apply run_new_Toaster|]. split; [apply H1|].
  rewrite Hc. cbn [constructed console]. rewrite <- app_assoc.
  cbn [app]. rewrite last_app_cons. exact Hl.
Qed.

(** ** The script, from any world *)

Lemma run_console_log (v : Value) (w : World) :
  run (console_log v) w
  = (Normal (), {| heap := heap w; console := console w ++ [v] |}).
Proof. reflexivity. Qed.

(** A permitted call, on a heap whose layout is known. *)
Lemma committed_at
    (h rest : list Obj) (t : Toaster) (c : list Value) (T : ClassName) :
  committed {| heap := h ++ ToasterObj t :: rest; console := c |} (length h) T
  = {| heap := h ++ ToasterObj {| _state := Ref (length h + S (length rest)) |}
                 :: rest ++ [StateObj T];
       console := c ++ [Ref (length h + S (length rest))] |}.
Proof.
  unfold committed. cbn [heap console]. rewrite length_app. cbn [length].
  f_equal. rewrite <- app_assoc. cbn [app].
  rewrite insert_app_r_alt by lia. now rewrite Nat.sub_diag.
Qed.

(** X9: run in any world, the script ends on the uncaught "Invalid
    operation" error of [toaster2.pullLever()].  By then it has created
    nine objects (the first toaster, the five states it went through, the
    second toaster, its initial state and the error) and logged, between
    its two headings, the five states of the first toaster and, after the
    second heading, the initial state of the second; both toasters are
    left in Idle, and nothing that existed before is changed. *)
Theorem script_from_any_world (w : World) :
  let n := length (heap w) in
  run script w =
  (Throw (Ref (n + 8)),
   {| heap := heap w ++
              [ToasterObj {| _state := Ref (n + 5) |}; StateObj IdleState;
               StateObj BreadInsertedState; StateObj ToastingState;
               StateObj BreadEjectedState; StateObj IdleState;
               ToasterObj {| _state := Ref (n + 7) |}; StateObj IdleState;
               invalid_operation];
      console := console w ++
                 [Str "testing allowed transitions";
                  Ref (n + 1); Ref (n + 2); Ref (n + 3); Ref (n + 4);
                  Ref (n + 5);
                  Str "testing disallowed transitions";
                  Ref (n + 7)] |}).
Proof.
  intros n. unfold script.
  rewrite run_bind, run_console_log.
  set (w0 := {| heap := heap w; console := _ |}).
  rewrite run_bind, run_new_Toaster.
  change (length (heap w0)) with n.
  destruct (run_full_cycle (constructed w0) n (S n) (toaster_at_constructed w0))
    as (E1 & E2 & E3 & E4 & _).
  rewrite run_bind, E1, run_bind, E2, run_bind, E3, run_bind, E4.
  clear E1 E2 E3 E4. subst n. unfold constructed, w0. cbn [heap console].
  rewrite !committed_at. cbn [app length].
  rewrite run_bind, run_console_log. cbn [heap console].
  set (w5 := {| heap := _; console := _ |}).
  rewrite run_bind, run_new_Toaster.
  change (Toaster_pullLever (length (heap w5)))
    with (Toaster_call pullLever (length (heap w5))).
  rewrite (run_call_no_edge _ _ _ _ (toaster_at_constructed w5) pullLever
             eq_refl).
  unfold refused, constructed, w5. cbn [heap console].
  rewrite !length_app. cbn [length].
  rewrite <- !app_assoc. cbn [app].
  replace (length (heap w) + 6 + 2) with (length (heap w) + 8) by lia.
  replace (S (length (heap w) + 6)) with (length (heap w) + 7) by lia.
  replace (S (length (heap w))) with (length (heap w) + 1) by lia.
  reflexivity.
Qed.

(** X10: no call is free of allocation: permitted or refused, each call
    on a toaster creates exactly one object, the next state or the error,
    so a series of calls grows the heap by the number of calls. *)
Theorem each_call_allocates_one_object
    (ops : list Operation) (w : World) (d : loc) (S : ClassName) :
  current_state w d = Some S →
  length (heap (drive ops d w)) = length (heap w) + length ops.
Proof.
  intros [s Hat]%current_state_toaster_at.
  destruct (drive_from ops w d s S Hat) as (_ & _ & _ & _ & _ & _ & _ & Hn).
  exact Hn.
Qed.

Lemma each_call_allocates_one_object_witness :
  current_state (toaster_in IdleState) 0 = Some IdleState ∧
  length (heap (drive [ejectBread; insertBread; insertBread] 0
                  (toaster_in IdleState)))
  = length (heap (toaster_in IdleState))
    + length [ejectBread; insertBread; insertBread].
Proof.
  split; [reflexivity|].
  apply (each_call_allocates_one_object [ejectBread; insertBread; insertBread]
           (toaster_in IdleState) 0 IdleState).
  reflexivity.
Defined.
